(** * go-tfe: the streaming log reader and the Projects client

    Two parts of the repository are covered.

    - [LogReader]: the reader that polls a remote, append-only log, strips
      the STX/ETX framing bytes and hands the text to an [io.Reader]
      consumer.  Its implementation file is not among the sources; only
      [logreader_integration_test.go] is.  The model is built from the
      specification's component design and is pinned down by the five
      integration tests, whose asserted output and counters ([logReads],
      [doneReads]) are replayed below.
    - [Projects]: [projects.go], the Create/Read/Update/Delete calls and the
      validation of their options. *)

From Stdlib Require Import List Bool Arith PeanoNat Lia.
From Stdlib Require Import Strings.Byte.
From Stdlib Require Strings.String.
Import ListNotations String.StringSyntax.
Local Open Scope string_scope.
Local Open Scope list_scope.
Local Open Scope nat_scope.

Module LogReader.

(** ** Bytes, chunks and markers *)

(** One fetch of the remote log returns a chunk of raw bytes, possibly empty. *)
Definition chunk := list byte.

(** START of text, 0x02. *)
Definition STX : byte := x02.

(** END of text, 0x03. *)
Definition ETX : byte := x03.

(** [scan m l] looks for the first byte [m] of [l]: the bytes before it and
    the bytes after it, or [None] when [l] has no [m]. *)
Fixpoint scan (m : byte) (l : list byte) : option (list byte * list byte) :=
  match l with
  | [] => None
  | b :: t =>
      if Byte.eqb b m then Some ([], t)
      else match scan m t with
           | Some (pre, post) => Some (b :: pre, post)
           | None => None
           end
  end.


(** ** MarkerFramer *)

(** Modelled from the spec: the marker scanner of the reader, whose source
    file is missing.  Section 4.1 gives it the states SEEKING_START, IN_BODY
    and DONE. *)
Inductive framer : Type :=
| SEEKING_START
| IN_BODY
| DONE.

(** Modelled from the spec: the IN_BODY case of [process] (section 4.1).  When
    END is found at index j the payload is bytes [0..j) and the rest is
    dropped; without END the whole chunk is payload. *)
Definition in_body (c : chunk) : framer * list byte :=
  match scan ETX c with
  | Some (payload, _) => (DONE, payload)
  | None => (IN_BODY, c)
  end.

(** Modelled from the spec: [process(chunk) -> payload] of section 4.1, the
    missing framer.  While seeking, a chunk with START at index i loses bytes
    [0..i] and the remainder is scanned for END in the same call.  A chunk
    without START is passed on as payload: section 4.1 asks both for such a
    chunk to be dropped and for a stream without any START to be passed
    through, and the reader cannot know which stream it is in when the chunk
    arrives; [TestLogReader_withoutMarkers] needs the chunk passed on.  After
    DONE nothing is payload. *)
Definition process (f : framer) (c : chunk) : framer * list byte :=
  match f with
  | SEEKING_START =>
      match scan STX c with
      | Some (_, rest) => in_body rest
      | None => (SEEKING_START, c)
      end
  | IN_BODY => in_body c
  | DONE => (DONE, [])
  end.

(** The framer run over a sequence of chunks: final state and all payload. *)
Fixpoint frame (f : framer) (cs : list chunk) : framer * list byte :=
  match cs with
  | [] => (f, [])
  | c :: t =>
      let (f1, p) := process f c in
      let (f2, q) := frame f1 t in
      (f2, p ++ q)
  end.

(** ** Collaborators *)

(** The errors a read call can return: Go's [io.EOF], [io.ErrNoProgress]
    (internal to the reader: nothing to hand over yet), and a failure
    reported by a collaborator. *)
Inductive error : Type :=
| EOF
| ErrNoProgress
| Failure (msg : String.string).

(** The two collaborators of a session, as the tests script them: the log
    server answers the n-th fetch with a chunk (the handlers switch on
    [logReads]) or fails, and the completion oracle [done] answers from the
    number of fetches made so far and the number of the call. *)
Record Remote : Type := {
  fetch : nat -> String.string + chunk;
  done : nat -> nat -> String.string + bool
}.

(** ** LogSession *)

(** Modelled from the spec: the session of section 3 (the reader's struct is
    missing).  [offset] counts the bytes fetched, [state] carries the
    [started]/[finished] flags, [reads] is the wait counter of the polling
    loop.  [logReads] and [doneReads] are the tests' counters of fetches and
    of oracle calls; [verdicts], [fetched] and [delivered] record the
    oracle's answers, the chunks received and the payload handed to the
    consumer. *)
Record LogSession : Type := {
  offset : nat;
  state : framer;
  reads : nat;
  logReads : nat;
  doneReads : nat;
  verdicts : list bool;
  fetched : list chunk;
  delivered : list byte
}.

Definition init : LogSession :=
  {| offset := 0; state := SEEKING_START; reads := 0; logReads := 0;
     doneReads := 0; verdicts := []; fetched := []; delivered := [] |}.

Definition set_reads (s : LogSession) (n : nat) : LogSession :=
  {| offset := offset s; state := state s; reads := n;
     logReads := logReads s; doneReads := doneReads s;
     verdicts := verdicts s; fetched := fetched s; delivered := delivered s |}.

(** ** PollLoop *)

(** Modelled from the spec: when a fetch cycle that produced no payload
    consults the completion oracle.  The specification leaves the cadence
    open (section 9); this is the cadence under which the five integration
    tests see the [doneReads] they assert: after END at once, after START
    on every tenth count of the wait counter, before START as soon as the
    wait counter exceeds one. *)
Definition oracle_due (f : framer) (n : nat) : bool :=
  match f with
  | DONE => true
  | IN_BODY => n mod 10 =? 0
  | SEEKING_START => 1 <? n
  end.

(** Modelled from the spec: one fetch cycle of the PollLoop (section 4.2),
    fetch -> frame -> append.  The result is Go's pair of the bytes read and
    the error.  Payload is handed over at once; a cycle without payload
    consults the oracle when [oracle_due] says so, and only the oracle's
    [true] ends the stream. *)
Definition read (R : Remote) (s : LogSession)
  : LogSession * (list byte * option error) :=
  let n := S (logReads s) in
  match fetch R n with
  | inl msg =>
      ({| offset := offset s; state := state s; reads := reads s;
          logReads := n; doneReads := doneReads s; verdicts := verdicts s;
          fetched := fetched s; delivered := delivered s |},
       ([], Some (Failure msg)))
  | inr c =>
      let (f, payload) := process (state s) c in
      let mk d v :=
        {| offset := offset s + length c; state := f; reads := reads s;
           logReads := n; doneReads := d; verdicts := v;
           fetched := fetched s ++ [c];
           delivered := delivered s ++ payload |} in
      match payload with
      | _ :: _ => (mk (doneReads s) (verdicts s), (payload, None))
      | [] =>
          if oracle_due f (reads s) then
            let d := S (doneReads s) in
            match done R n d with
            | inl msg => (mk d (verdicts s), ([], Some (Failure msg)))
            | inr true => (mk d (verdicts s ++ [true]), ([], Some EOF))
            | inr false => (mk d (verdicts s ++ [false]), ([], Some ErrNoProgress))
            end
          else (mk (doneReads s) (verdicts s), ([], Some ErrNoProgress))
      end
  end.

(** Modelled from the spec: the wait loop of a read call, [fuel] bounding the
    number of cycles.  Each cycle without progress raises the wait counter. *)
Fixpoint poll (fuel : nat) (R : Remote) (s : LogSession)
  : option (LogSession * (list byte * option error)) :=
  match fuel with
  | 0 => None
  | S k =>
      let (s1, r) := read R s in
      match snd r with
      | Some ErrNoProgress => poll k R (set_reads s1 (S (reads s1)))
      | _ => Some (s1, r)
      end
  end.

(** Modelled from the spec: the consumer-facing read of section 4.3.  It
    tries one cycle at once and otherwise waits, the wait counter starting
    again from one; [None] is a call still blocked when the fuel ran out. *)
Definition Read (fuel : nat) (R : Remote) (s : LogSession)
  : option (LogSession * (list byte * option error)) :=
  let (s1, r) := read R s in
  match snd r with
  | Some ErrNoProgress => poll fuel R (set_reads s1 1)
  | _ => Some (s1, r)
  end.

(** Go's [io.ReadAll], the consumer of every test: read calls until
    end-of-stream (reported as no error) or an error. *)
Fixpoint ReadAll (calls fuel : nat) (R : Remote) (s : LogSession)
    (acc : list byte) : option (LogSession * (list byte * option error)) :=
  match calls with
  | 0 => None
  | S k =>
      match Read fuel R s with
      | None => None
      | Some (s1, (bs, None)) => ReadAll k fuel R s1 (acc ++ bs)
      | Some (s1, (bs, Some EOF)) => Some (s1, (acc ++ bs, None))
      | Some (s1, (bs, Some e)) => Some (s1, (acc ++ bs, Some e))
      end
  end.

(** The sessions a consumer can be in: the fresh one, and what a fetch cycle
    or a change of the wait counter makes of one. *)
Inductive reachable (R : Remote) : LogSession -> Prop :=
| reach_init : reachable R init
| reach_read s : reachable R s -> reachable R (fst (read R s))
| reach_wait s n : reachable R s -> reachable R (set_reads s n).

(** ** The integration tests' servers and oracles *)

Definition text (s : String.string) : list byte := String.list_byte_of_string s.

(** What a test observes: the logs as a string, the error, [logReads] and
    [doneReads]. *)
Definition observed (r : option (LogSession * (list byte * option error)))
  : option (String.string * option error * nat * nat) :=
  match r with
  | None => None
  | Some (s, (bs, e)) =>
      Some (String.string_of_list_byte bs, e, logReads s, doneReads s)
  end.

(** [TestLogReader_withMarkersSingle]. *)
Definition withMarkersSingle : Remote :=
  {| fetch n :=
       inr (if n =? 2
            then STX :: text "Terraform run started - logs - Terraform run finished" ++ [ETX]
            else []);
     done n _ := inr (2 <=? n) |}.

(** [TestLogReader_withMarkersDouble]. *)
Definition withMarkersDouble : Remote :=
  {| fetch n :=
       inr (if n =? 2 then STX :: text "Terraform run started"
            else if n =? 3 then text " - logs - Terraform run finished" ++ [ETX]
            else []);
     done n _ := inr (3 <=? n) |}.

(** [TestLogReader_withMarkersMulti]. *)
Definition withMarkersMulti : Remote :=
  {| fetch n :=
       inr (if n =? 2 then [STX]
            else if n =? 3 then text "Terraform run started"
            else if n =? 16 then text " - logs - "
            else if n =? 30 then text "Terraform run finished"
            else if n =? 31 then [ETX]
            else []);
     done n _ := inr (31 <=? n) |}.

(** [TestLogReader_withoutMarkers]. *)
Definition withoutMarkers : Remote :=
  {| fetch n :=
       inr (if n =? 2 then text "Terraform run started"
            else if n =? 16 then text " - logs - "
            else if n =? 31 then text "Terraform run finished"
            else []);
     done n _ := inr (31 <=? n) |}.

(** [TestLogReader_withoutEndOfTextMarker]. *)
Definition withoutEndOfTextMarker : Remote :=
  {| fetch n :=
       inr (if n =? 2 then [STX]
            else if n =? 3 then text "Terraform run started"
            else if n =? 16 then text " - logs - "
            else if n =? 31 then text "Terraform run finished"
            else []);
     done n _ := inr (31 <=? n) |}.

Definition expected : String.string :=
  "Terraform run started - logs - Terraform run finished".

(** ** Further servers and ways to run a session *)








(** A server that is down. *)
Definition down : Remote :=
  {| fetch _ := inl "503"; done _ _ := inr true |}.

(** A silent server whose job is done. *)
Definition silentDone : Remote :=
  {| fetch _ := inr []; done _ _ := inr true |}.






End LogReader.

Module Projects.

(** ** Data *)

(** The sentinel errors the calls return ([ErrInvalidOrg] and the others are
    declared with the package's errors), and any error of the client. *)
Inductive error : Type :=
| ErrInvalidOrg
| ErrInvalidProjectID
| ErrRequiredName
| ErrInvalidName
| ErrClient (msg : String.string).

(** [ProjectCreateOptions]: the JSON:API type and the name, a [*string]. *)
Record ProjectCreateOptions : Type := {
  CreateType : String.string;
  CreateName : option String.string
}.

(** [ProjectUpdateOptions]. *)
Record ProjectUpdateOptions : Type := {
  UpdateType : String.string;
  UpdateName : option String.string
}.

(** The body handed to [NewRequest]: [nil], [&options] of a create or of an
    update. *)
Inductive body : Type :=
| NoBody
| CreateBody (o : ProjectCreateOptions)
| UpdateBody (o : ProjectUpdateOptions).

(** [Project]; the [Organization] struct is declared outside
    [projects.go]. *)
Record Project (Organization : Type) : Type := {
  ID : String.string;
  Name : String.string;
  Org : option Organization
}.

Arguments ID {Organization} p.
Arguments Name {Organization} p.
Arguments Org {Organization} p.

(** What [log.Println] writes in [Create]: the context, the project. *)
Inductive logline (Organization : Type) : Type :=
| LogContext
| LogProject (p : Project Organization).

Arguments LogContext {Organization}.
Arguments LogProject {Organization} p.

(** Everything outside the call: the HTTP requests sent so far, the
    server's state and the log output. *)
Record World (Organization Request Server : Type) : Type := {
  sent : list Request;
  server : Server;
  printed : list (logline Organization)
}.

Arguments sent {Organization Request Server} w.
Arguments server {Organization Request Server} w.
Arguments printed {Organization Request Server} w.

(** ** A client to run the calls with *)

(** Two validators: a string is valid when it is non-nil and non-empty, a
    string ID when it is moreover free of '/'. *)
Definition nonEmpty (v : option String.string) : bool :=
  match v with
  | Some s => negb (String.eqb s "")
  | None => false
  end.

Definition noSlash (v : option String.string) : bool :=
  match v with
  | Some s =>
      negb (String.eqb s "") &&
      forallb (fun b => negb (Byte.eqb b x2f)) (String.list_byte_of_string s)
  | None => false
  end.

(** A request is its method, path and body; the server counts the requests
    and answers with one project. *)
Definition TestRequest : Type := (String.string * String.string * body)%type.

Definition build (m u : String.string) (b : body) : error + TestRequest :=
  inr (m, u, b).

Definition refuse (m u : String.string) (b : body) : error + TestRequest :=
  inl (ErrClient "no request").

Definition answer (req : TestRequest) (n : nat)
  : nat * (option error * Project unit) :=
  (S n, (None, {| ID := "prj-1"; Name := "first"; Org := None |})).

Definition quiet : World unit TestRequest nat :=
  {| sent := []; server := 0; printed := [] |}.

Section Client.

(** The package's helpers and the client, declared outside [projects.go]:
    the two validators on a [*string], [url.QueryEscape], the
    [Organization] struct, the request [NewRequest] builds (or the error it
    returns), and the server, which answers a request with an error or none
    and the project decoded into the target of [req.Do]. *)
Variable validString : option String.string -> bool.
Variable validStringID : option String.string -> bool.
Variable QueryEscape : String.string -> String.string.
Variable Organization : Type.
Variable Request : Type.
Variable NewRequest : String.string -> String.string -> body -> error + Request.
Variable Server : Type.
Variable serve :
  Request -> Server -> Server * (option error * Project Organization).

(** The contract of [validString]: a nil or an empty string is not valid. *)
Hypothesis validString_nil : validString None = false.
Hypothesis validString_empty : validString (Some "") = false.

(** [req.Do(ctx, v)]: the request goes out and the server answers. *)
Definition Do (req : Request) (w : World Organization Request Server)
  : World Organization Request Server * (option error * Project Organization) :=
  let (sv, r) := serve req (server w) in
  ({| sent := sent w ++ [req]; server := sv; printed := printed w |}, r).

Definition Println (l : logline Organization)
    (w : World Organization Request Server)
  : World Organization Request Server :=
  {| sent := sent w; server := server w; printed := printed w ++ [l] |}.

(** ** Options *)

(** [func (o ProjectCreateOptions) valid() error]. *)
Definition ProjectCreateOptions_valid (o : ProjectCreateOptions) : option error :=
  if negb (validString (CreateName o)) then Some ErrRequiredName
  else if negb (validStringID (CreateName o)) then Some ErrInvalidName
  else None.

(** [func (o ProjectUpdateOptions) valid() error]. *)
Definition ProjectUpdateOptions_valid (o : ProjectUpdateOptions) : option error :=
  match UpdateName o with
  | Some n => if negb (validStringID (Some n)) then Some ErrInvalidName else None
  | None => None
  end.

(** ** Calls *)

(** [func (s *projects) Create]. *)
Definition Create (organization : String.string) (options : ProjectCreateOptions)
    (w : World Organization Request Server)
  : World Organization Request Server
    * (option (Project Organization) * option error) :=
  if negb (validStringID (Some organization)) then (w, (None, Some ErrInvalidOrg))
  else
    match ProjectCreateOptions_valid options with
    | Some err => (w, (None, Some err))
    | None =>
        let u := String.append "organizations/"
                   (String.append (QueryEscape organization) "/projects") in
        match NewRequest "POST" u (CreateBody options) with
        | inl err => (w, (None, Some err))
        | inr req =>
            let (w1, r) := Do req w in
            let w2 := Println (LogProject (snd r)) (Println LogContext w1) in
            match fst r with
            | Some err => (w2, (None, Some err))
            | None => (w2, (Some (snd r), None))
            end
        end
    end.

(** [func (s *projects) Read]. *)
Definition Read (ProjectID : String.string)
    (w : World Organization Request Server)
  : World Organization Request Server
    * (option (Project Organization) * option error) :=
  if negb (validStringID (Some ProjectID)) then (w, (None, Some ErrInvalidProjectID))
  else
    let u := String.append "projects/" (QueryEscape ProjectID) in
    match NewRequest "GET" u NoBody with
    | inl err => (w, (None, Some err))
    | inr req =>
        let (w1, r) := Do req w in
        match fst r with
        | Some err => (w1, (None, Some err))
        | None => (w1, (Some (snd r), None))
        end
    end.

(** [func (s *projects) Update]. *)
Definition Update (ProjectID : String.string) (options : ProjectUpdateOptions)
    (w : World Organization Request Server)
  : World Organization Request Server
    * (option (Project Organization) * option error) :=
  if negb (validStringID (Some ProjectID)) then (w, (None, Some ErrInvalidProjectID))
  else
    match ProjectUpdateOptions_valid options with
    | Some err => (w, (None, Some err))
    | None =>
        let u := String.append "projects/" (QueryEscape ProjectID) in
        match NewRequest "PATCH" u (UpdateBody options) with
        | inl err => (w, (None, Some err))
        | inr req =>
            let (w1, r) := Do req w in
            match fst r with
            | Some err => (w1, (None, Some err))
            | None => (w1, (Some (snd r), None))
            end
        end
    end.

(** [func (s *projects) Delete]. *)
Definition Delete (ProjectID : String.string)
    (w : World Organization Request Server)
  : World Organization Request Server * option error :=
  if negb (validStringID (Some ProjectID)) then (w, Some ErrInvalidProjectID)
  else
    let u := String.append "projects/" (QueryEscape ProjectID) in
    match NewRequest "DELETE" u NoBody with
    | inl err => (w, Some err)
    | inr req =>
        let (w1, r) := Do req w in
        (w1, fst r)
    end.

(** Whether the request could be built. *)
Ltac case_request :=
  match goal with
  | |- context [match ?x with inl _ => _ | inr _ => _ end] =>
      let e := fresh "e" in
      let req := fresh "req" in
      destruct x as [e|req]
  end.

(** ** Validation comes first *)

Lemma ProjectCreateOptions_valid_errors (o : ProjectCreateOptions) (e : error) :
  ProjectCreateOptions_valid o = Some e -> e = ErrRequiredName \/ e = ErrInvalidName.
Proof.
  unfold ProjectCreateOptions_valid.
  destruct (validString (CreateName o)); simpl.
  - destruct (validStringID (CreateName o)); simpl; [discriminate|].
    intros H. inversion H. now right.
  - intros H. inversion H. now left.
Qed.

Lemma ProjectUpdateOptions_valid_errors (o : ProjectUpdateOptions) (e : error) :
  ProjectUpdateOptions_valid o = Some e -> e = ErrInvalidName.
Proof.
  unfold ProjectUpdateOptions_valid.
  destruct (UpdateName o) as [n|]; [|discriminate].
  destruct (validStringID (Some n)); simpl; [discriminate|].
  intros H. now inversion H.
Qed.

(** C9.  Every call checks its string ID first and its options next; on an
    invalid input it returns the sentinel error and leaves the world as it
    was: no request is sent, the server is not touched, nothing is logged.
    [Create] answers [ErrInvalidOrg] to an invalid organization; [Read],
    [Update] and [Delete] answer [ErrInvalidProjectID] to an invalid ID;
    invalid options give the error of their [valid], [ErrRequiredName] or
    [ErrInvalidName]. *)
Theorem invalid_input_sends_nothing :
  (forall org o w, validStringID (Some org) = false ->
     Create org o w = (w, (None, Some ErrInvalidOrg))) /\
  (forall org o w e, validStringID (Some org) = true ->
     ProjectCreateOptions_valid o = Some e ->
     Create org o w = (w, (None, Some e)) /\
     (e = ErrRequiredName \/ e = ErrInvalidName)) /\
  (forall id w, validStringID (Some id) = false ->
     Read id w = (w, (None, Some ErrInvalidProjectID))) /\
  (forall id o w, validStringID (Some id) = false ->
     Update id o w = (w, (None, Some ErrInvalidProjectID))) /\
  (forall id o w e, validStringID (Some id) = true ->
     ProjectUpdateOptions_valid o = Some e ->
     Update id o w = (w, (None, Some e)) /\ e = ErrInvalidName) /\
  (forall id w, validStringID (Some id) = false ->
     Delete id w = (w, Some ErrInvalidProjectID)).
Proof.
  split; [|split; [|split; [|split; [|split]]]].
  - intros org o w H. unfold Create. now rewrite H.
  - intros org o w e H H0. split.
    + unfold Create. now rewrite H, H0.
    + now apply ProjectCreateOptions_valid_errors with o.
  - intros id w H. unfold Read. now rewrite H.
  - intros id o w H. unfold Update. now rewrite H.
  - intros id o w e H H0. split.
    + unfold Update. now rewrite H, H0.
    + now apply ProjectUpdateOptions_valid_errors with o.
  - intros id w H. unfold Delete. now rewrite H.
Qed.

(** ** What a call does to the world *)

(** X1.  A call sends at most one HTTP request. *)
Theorem at_most_one_request (org id : String.string)
    (o : ProjectCreateOptions) (u : ProjectUpdateOptions)
    (w : World Organization Request Server) :
  let one w' := sent w' = sent w \/ exists req, sent w' = sent w ++ [req] in
  one (fst (Create org o w)) /\ one (fst (Read id w)) /\
  one (fst (Update id u w)) /\ one (fst (Delete id w)).
Proof.
  unfold Create, Read, Update, Delete, Do. cbv zeta.
  split; [|split; [|split]].
  - destruct (validStringID (Some org)); cbn [negb]; [|now left].
    destruct (ProjectCreateOptions_valid o); [now left|].
    case_request; [now left|].
    destruct (serve req (server w)) as [sv [[e|] p]]; right; now exists req.
  - destruct (validStringID (Some id)); cbn [negb]; [|now left].
    case_request; [now left|].
    destruct (serve req (server w)) as [sv [[e|] p]]; right; now exists req.
  - destruct (validStringID (Some id)); cbn [negb]; [|now left].
    destruct (ProjectUpdateOptions_valid u); [now left|].
    case_request; [now left|].
    destruct (serve req (server w)) as [sv [[e|] p]]; right; now exists req.
  - destruct (validStringID (Some id)); cbn [negb]; [|now left].
    case_request; [now left|].
    destruct (serve req (server w)) as [sv [[e|] p]]; right; now exists req.
Qed.

(** X2.  [Create], [Read] and [Update] return a project and no error, or no
    project and an error: never both, never neither. *)
Theorem project_or_error (org id : String.string)
    (o : ProjectCreateOptions) (u : ProjectUpdateOptions)
    (w : World Organization Request Server) :
  let shape (r : option (Project Organization) * option error) :=
    (exists p, r = (Some p, None)) \/ (exists e, r = (None, Some e)) in
  shape (snd (Create org o w)) /\ shape (snd (Read id w)) /\
  shape (snd (Update id u w)).
Proof.
  unfold Create, Read, Update, Do. cbv zeta.
  split; [|split].
  - destruct (validStringID (Some org)); cbn [negb]; [|right; eexists; reflexivity].
    destruct (ProjectCreateOptions_valid o); [right; eexists; reflexivity|].
    case_request; [right; eexists; reflexivity|].
    destruct (serve req (server w)) as [sv [[e'|] p]]; simpl;
      [right|left]; eexists; reflexivity.
  - destruct (validStringID (Some id)); cbn [negb]; [|right; eexists; reflexivity].
    case_request; [right; eexists; reflexivity|].
    destruct (serve req (server w)) as [sv [[e'|] p]]; simpl;
      [right|left]; eexists; reflexivity.
  - destruct (validStringID (Some id)); cbn [negb]; [|right; eexists; reflexivity].
    destruct (ProjectUpdateOptions_valid u); [right; eexists; reflexivity|].
    case_request; [right; eexists; reflexivity|].
    destruct (serve req (server w)) as [sv [[e'|] p]]; simpl;
      [right|left]; eexists; reflexivity.
Qed.

(** X3.  [Read], [Update] and [Delete] write nothing to the log.  [Create]
    writes its two lines exactly when it sent its request, also when the
    server answered with an error. *)
Theorem only_Create_logs (org id : String.string)
    (o : ProjectCreateOptions) (u : ProjectUpdateOptions)
    (w : World Organization Request Server) :
  printed (fst (Read id w)) = printed w /\
  printed (fst (Update id u w)) = printed w /\
  printed (fst (Delete id w)) = printed w /\
  ((sent (fst (Create org o w)) = sent w /\
    printed (fst (Create org o w)) = printed w) \/
   (exists req p,
      sent (fst (Create org o w)) = sent w ++ [req] /\
      printed (fst (Create org o w)) = printed w ++ [LogContext; LogProject p])).
Proof.
  unfold Create, Read, Update, Delete, Do, Println. cbv zeta.
  split; [|split; [|split]].
  - destruct (validStringID (Some id)); cbn [negb]; [|reflexivity].
    case_request; [reflexivity|].
    destruct (serve req (server w)) as [sv [[e|] p]]; reflexivity.
  - destruct (validStringID (Some id)); cbn [negb]; [|reflexivity].
    destruct (ProjectUpdateOptions_valid u); [reflexivity|].
    case_request; [reflexivity|].
    destruct (serve req (server w)) as [sv [[e|] p]]; reflexivity.
  - destruct (validStringID (Some id)); cbn [negb]; [|reflexivity].
    case_request; [reflexivity|].
    destruct (serve req (server w)) as [sv [[e|] p]]; reflexivity.
  - destruct (validStringID (Some org)); cbn [negb]; [|now left].
    destruct (ProjectCreateOptions_valid o); [now left|].
    case_request; [now left|].
    destruct (serve req (server w)) as [sv [[e|] p]]; simpl;
      right; exists req, p; split; trivial; now rewrite <- app_assoc.
Qed.

(** X4.  When the request cannot be built, its error is returned and
    nothing is sent. *)
Theorem NewRequest_error_sends_nothing (id : String.string)
    (u : ProjectUpdateOptions) (w : World Organization Request Server)
    (e : error) :
  validStringID (Some id) = true ->
  (NewRequest "GET" (String.append "projects/" (QueryEscape id)) NoBody = inl e ->
   Read id w = (w, (None, Some e))) /\
  (ProjectUpdateOptions_valid u = None ->
   NewRequest "PATCH" (String.append "projects/" (QueryEscape id)) (UpdateBody u) = inl e ->
   Update id u w = (w, (None, Some e))) /\
  (NewRequest "DELETE" (String.append "projects/" (QueryEscape id)) NoBody = inl e ->
   Delete id w = (w, Some e)).
Proof.
  intros Hv. unfold Read, Update, Delete. rewrite Hv. simpl.
  split; [|split].
  - now intros ->.
  - now intros -> ->.
  - now intros ->.
Qed.

(** X5.  [Read] on a valid ID whose request can be built sends exactly that
    request, and returns the server's project when the server reports no
    error and the server's error otherwise. *)
Theorem Read_returns_the_servers_answer (id : String.string)
    (w : World Organization Request Server) (req : Request) :
  validStringID (Some id) = true ->
  NewRequest "GET" (String.append "projects/" (QueryEscape id)) NoBody = inr req ->
  sent (fst (Read id w)) = sent w ++ [req] /\
  server (fst (Read id w)) = fst (serve req (server w)) /\
  snd (Read id w) =
    match fst (snd (serve req (server w))) with
    | Some e => (None, Some e)
    | None => (Some (snd (snd (serve req (server w)))), None)
    end.
Proof.
  intros Hv Hn. unfold Read. rewrite Hv, Hn. simpl. unfold Do.
  destruct (serve req (server w)) as [sv [[e|] p]]; now repeat split.
Qed.

(** X6.  [Update] does not need a name: with a nil name and a valid ID the
    request goes out. *)
Theorem Update_without_name_is_sent (id : String.string)
    (u : ProjectUpdateOptions) (w : World Organization Request Server)
    (req : Request) :
  validStringID (Some id) = true ->
  UpdateName u = None ->
  NewRequest "PATCH" (String.append "projects/" (QueryEscape id)) (UpdateBody u) = inr req ->
  sent (fst (Update id u w)) = sent w ++ [req].
Proof.
  intros Hv Hu Hn. unfold Update, ProjectUpdateOptions_valid.
  rewrite Hv, Hu, Hn. simpl. unfold Do.
  destruct (serve req (server w)) as [sv [[e|] p]]; reflexivity.
Qed.

(** X7.  [Create] on a valid organization and valid options whose request
    can be built sends exactly that POST request, logs the context and the
    decoded project, and returns the server's project when the server
    reports no error and the server's error otherwise. *)
Theorem Create_returns_the_servers_answer (org : String.string)
    (o : ProjectCreateOptions) (w : World Organization Request Server)
    (req : Request) :
  validStringID (Some org) = true ->
  ProjectCreateOptions_valid o = None ->
  NewRequest "POST"
    (String.append "organizations/" (String.append (QueryEscape org) "/projects"))
    (CreateBody o) = inr req ->
  sent (fst (Create org o w)) = sent w ++ [req] /\
  server (fst (Create org o w)) = fst (serve req (server w)) /\
  printed (fst (Create org o w))
  = printed w ++ [LogContext; LogProject (snd (snd (serve req (server w))))] /\
  snd (Create org o w) =
    match fst (snd (serve req (server w))) with
    | Some e => (None, Some e)
    | None => (Some (snd (snd (serve req (server w)))), None)
    end.
Proof.
  intros Hv Ho Hn. unfold Create. rewrite Hv, Ho. cbv zeta. rewrite Hn.
  cbn [negb]. unfold Do, Println.
  destruct (serve req (server w)) as [sv [[e|] p]]; simpl;
    rewrite <- app_assoc; now repeat split.
Qed.

(** X8.  [Delete] on a valid ID whose request can be built sends exactly
    that DELETE request and returns the server's error, or none. *)
Theorem Delete_returns_the_servers_error (id : String.string)
    (w : World Organization Request Server) (req : Request) :
  validStringID (Some id) = true ->
  NewRequest "DELETE" (String.append "projects/" (QueryEscape id)) NoBody = inr req ->
  Delete id w =
  ({| sent := sent w ++ [req];
      server := fst (serve req (server w));
      printed := printed w |},
   fst (snd (serve req (server w)))).
Proof.
  intros Hv Hn. unfold Delete. rewrite Hv. cbv zeta. rewrite Hn.
  cbn [negb]. unfold Do.
  now destruct (serve req (server w)) as [sv [e p]].
Qed.

(** ** Where results come from *)

(** X9.  Every error a call returns is accounted for: it is the sentinel of
    the failed ID check, the error of the options' [valid], the error of
    [NewRequest], or the error the server answered the request with. *)
Theorem errors_are_accounted_for (org id : String.string)
    (o : ProjectCreateOptions) (u : ProjectUpdateOptions)
    (w : World Organization Request Server) (e : error) :
  (snd (snd (Create org o w)) = Some e ->
   (validStringID (Some org) = false /\ e = ErrInvalidOrg) \/
   (validStringID (Some org) = true /\ ProjectCreateOptions_valid o = Some e) \/
   NewRequest "POST"
     (String.append "organizations/"
        (String.append (QueryEscape org) "/projects"))
     (CreateBody o) = inl e \/
   exists req,
     NewRequest "POST"
       (String.append "organizations/"
          (String.append (QueryEscape org) "/projects"))
       (CreateBody o) = inr req /\
     fst (snd (serve req (server w))) = Some e) /\
  (snd (snd (Read id w)) = Some e ->
   (validStringID (Some id) = false /\ e = ErrInvalidProjectID) \/
   NewRequest "GET" (String.append "projects/" (QueryEscape id)) NoBody
   = inl e \/
   exists req,
     NewRequest "GET" (String.append "projects/" (QueryEscape id)) NoBody
     = inr req /\
     fst (snd (serve req (server w))) = Some e) /\
  (snd (snd (Update id u w)) = Some e ->
   (validStringID (Some id) = false /\ e = ErrInvalidProjectID) \/
   (validStringID (Some id) = true /\ ProjectUpdateOptions_valid u = Some e) \/
   NewRequest "PATCH" (String.append "projects/" (QueryEscape id))
     (UpdateBody u) = inl e \/
   exists req,
     NewRequest "PATCH" (String.append "projects/" (QueryEscape id))
       (UpdateBody u) = inr req /\
     fst (snd (serve req (server w))) = Some e) /\
  (snd (Delete id w) = Some e ->
   (validStringID (Some id) = false /\ e = ErrInvalidProjectID) \/
   NewRequest "DELETE" (String.append "projects/" (QueryEscape id)) NoBody
   = inl e \/
   exists req,
     NewRequest "DELETE" (String.append "projects/" (QueryEscape id)) NoBody
     = inr req /\
     fst (snd (serve req (server w))) = Some e).
Proof.
  unfold Create, Read, Update, Delete, Do. cbv zeta.
  split; [|split; [|split]].
  - destruct (validStringID (Some org)); cbn [negb];
      [|intros H; inversion H; left; now split].
    destruct (ProjectCreateOptions_valid o) as [e0|];
      [intros H; inversion H; right; left; now split|].
    match goal with
    | |- context [match ?x with inl _ => _ | inr _ => _ end] =>
        destruct x as [e1|req] eqn:En
    end; [intros H; inversion H; right; right; now left|].
    destruct (serve req (server w)) as [sv [[e2|] p]] eqn:Es; cbn;
      [|discriminate].
    intros H. inversion H; subst. right; right; right. exists req.
    rewrite Es. now split.
  - destruct (validStringID (Some id)); cbn [negb];
      [|intros H; inversion H; left; now split].
    match goal with
    | |- context [match ?x with inl _ => _ | inr _ => _ end] =>
        destruct x as [e1|req] eqn:En
    end; [intros H; inversion H; right; now left|].
    destruct (serve req (server w)) as [sv [[e2|] p]] eqn:Es; cbn;
      [|discriminate].
    intros H. inversion H; subst. right; right. exists req.
    rewrite Es. now split.
  - destruct (validStringID (Some id)); cbn [negb];
      [|intros H; inversion H; left; now split].
    destruct (ProjectUpdateOptions_valid u) as [e0|];
      [intros H; inversion H; right; left; now split|].
    match goal with
    | |- context [match ?x with inl _ => _ | inr _ => _ end] =>
        destruct x as [e1|req] eqn:En
    end; [intros H; inversion H; right; right; now left|].
    destruct (serve req (server w)) as [sv [[e2|] p]] eqn:Es; cbn;
      [|discriminate].
    intros H. inversion H; subst. right; right; right. exists req.
    rewrite Es. now split.
  - destruct (validStringID (Some id)); cbn [negb];
      [|intros H; inversion H; left; now split].
    match goal with
    | |- context [match ?x with inl _ => _ | inr _ => _ end] =>
        destruct x as [e1|req] eqn:En
    end; [intros H; inversion H; right; now left|].
    destruct (serve req (server w)) as [sv [[e2|] p]] eqn:Es; cbn;
      [|discriminate].
    intros H. inversion H; subst. right; right. exists req.
    rewrite Es. now split.
Qed.

(** X10.  A project a call returns is the one the server answered with: the
    ID and the options passed validation, the request was built and sent,
    the server reported no error, and the world is the one after that
    request. *)
Theorem project_comes_from_the_server (org id : String.string)
    (o : ProjectCreateOptions) (u : ProjectUpdateOptions)
    (w : World Organization Request Server) (p : Project Organization) :
  (fst (snd (Create org o w)) = Some p ->
   validStringID (Some org) = true /\ ProjectCreateOptions_valid o = None /\
   exists req,
     NewRequest "POST"
       (String.append "organizations/"
          (String.append (QueryEscape org) "/projects"))
       (CreateBody o) = inr req /\
     snd (serve req (server w)) = (None, p) /\
     sent (fst (Create org o w)) = sent w ++ [req]) /\
  (fst (snd (Read id w)) = Some p ->
   validStringID (Some id) = true /\
   exists req,
     NewRequest "GET" (String.append "projects/" (QueryEscape id)) NoBody
     = inr req /\
     snd (serve req (server w)) = (None, p) /\
     sent (fst (Read id w)) = sent w ++ [req]) /\
  (fst (snd (Update id u w)) = Some p ->
   validStringID (Some id) = true /\ ProjectUpdateOptions_valid u = None /\
   exists req,
     NewRequest "PATCH" (String.append "projects/" (QueryEscape id))
       (UpdateBody u) = inr req /\
     snd (serve req (server w)) = (None, p) /\
     sent (fst (Update id u w)) = sent w ++ [req]).
Proof.
  unfold Create, Read, Update, Do, Println. cbv zeta.
  split; [|split].
  - destruct (validStringID (Some org)); cbn [negb]; [|discriminate].
    destruct (ProjectCreateOptions_valid o) as [e0|]; [discriminate|].
    match goal with
    | |- context [match ?x with inl _ => _ | inr _ => _ end] =>
        destruct x as [e1|req] eqn:En
    end; [discriminate|].
    destruct (serve req (server w)) as [sv [[e2|] q]] eqn:Es; cbn;
      [discriminate|].
    intros H. inversion H. subst q.
    split; [reflexivity|split; [reflexivity|]]. exists req.
    rewrite Es. now repeat split.
  - destruct (validStringID (Some id)); cbn [negb]; [|discriminate].
    match goal with
    | |- context [match ?x with inl _ => _ | inr _ => _ end] =>
        destruct x as [e1|req] eqn:En
    end; [discriminate|].
    destruct (serve req (server w)) as [sv [[e2|] q]] eqn:Es; cbn;
      [discriminate|].
    intros H. inversion H. subst q.
    split; [reflexivity|]. exists req.
    rewrite Es. now repeat split.
  - destruct (validStringID (Some id)); cbn [negb]; [|discriminate].
    destruct (ProjectUpdateOptions_valid u) as [e0|]; [discriminate|].
    match goal with
    | |- context [match ?x with inl _ => _ | inr _ => _ end] =>
        destruct x as [e1|req] eqn:En
    end; [discriminate|].
    destruct (serve req (server w)) as [sv [[e2|] q]] eqn:Es; cbn;
      [discriminate|].
    intros H. inversion H. subst q.
    split; [reflexivity|split; [reflexivity|]]. exists req.
    rewrite Es. now repeat split.
Qed.

(** X11.  A call that sends no request changes nothing: the server's state
    and the log are as before. *)
Theorem no_request_no_change (org id : String.string)
    (o : ProjectCreateOptions) (u : ProjectUpdateOptions)
    (w : World Organization Request Server) :
  (sent (fst (Create org o w)) = sent w -> fst (Create org o w) = w) /\
  (sent (fst (Read id w)) = sent w -> fst (Read id w) = w) /\
  (sent (fst (Update id u w)) = sent w -> fst (Update id u w) = w) /\
  (sent (fst (Delete id w)) = sent w -> fst (Delete id w) = w).
Proof.
  assert (Hn : forall (l : list Request) r, l ++ [r] <> l).
  { intros l r H. apply (f_equal (@length Request)) in H.
    rewrite length_app in H. simpl in H. lia. }
  unfold Create, Read, Update, Delete, Do, Println. cbv zeta.
  split; [|split; [|split]].
  - destruct (validStringID (Some org)); cbn [negb]; [|reflexivity].
    destruct (ProjectCreateOptions_valid o); [reflexivity|].
    case_request; [reflexivity|].
    destruct (serve req (server w)) as [sv [[e'|] p]]; cbn;
      intros H; now apply Hn in H.
  - destruct (validStringID (Some id)); cbn [negb]; [|reflexivity].
    case_request; [reflexivity|].
    destruct (serve req (server w)) as [sv [[e'|] p]]; cbn;
      intros H; now apply Hn in H.
  - destruct (validStringID (Some id)); cbn [negb]; [|reflexivity].
    destruct (ProjectUpdateOptions_valid u); [reflexivity|].
    case_request; [reflexivity|].
    destruct (serve req (server w)) as [sv [[e'|] p]]; cbn;
      intros H; now apply Hn in H.
  - destruct (validStringID (Some id)); cbn [negb]; [|reflexivity].
    case_request; [reflexivity|].
    destruct (serve req (server w)) as [sv [[e'|] p]]; cbn;
      intros H; now apply Hn in H.
Qed.

(** X12.  A name accepted on create is accepted on update: options that
    pass [ProjectCreateOptions.valid] pass [ProjectUpdateOptions.valid]
    when their name is used for an update. *)
Theorem create_valid_is_update_valid (o : ProjectCreateOptions)
    (t : String.string) :
  ProjectCreateOptions_valid o = None ->
  ProjectUpdateOptions_valid {| UpdateType := t; UpdateName := CreateName o |}
  = None.
Proof.
  unfold ProjectCreateOptions_valid, ProjectUpdateOptions_valid. cbn.
  destruct (validString (CreateName o)); cbn; [|discriminate].
  destruct (CreateName o) as [n|]; [|reflexivity].
  now destruct (validStringID (Some n)).
Qed.

(** ** Name is required on create only *)

(** C10.  [ProjectCreateOptions.valid] rejects a nil and an empty name with
    [ErrRequiredName], and a name that is not a valid string ID with
    [ErrInvalidName]; it accepts exactly the names both validators accept.
    [ProjectUpdateOptions.valid] accepts a nil name and rejects nothing but
    a non-nil name that is not a valid string ID, with [ErrInvalidName]. *)
Theorem name_required_on_create_only :
  (forall o, CreateName o = None ->
     ProjectCreateOptions_valid o = Some ErrRequiredName) /\
  (forall o, CreateName o = Some "" ->
     ProjectCreateOptions_valid o = Some ErrRequiredName) /\
  (forall o, validString (CreateName o) = true ->
     validStringID (CreateName o) = false ->
     ProjectCreateOptions_valid o = Some ErrInvalidName) /\
  (forall o, ProjectCreateOptions_valid o = None <->
     validString (CreateName o) = true /\ validStringID (CreateName o) = true) /\
  (forall o, UpdateName o = None -> ProjectUpdateOptions_valid o = None) /\
  (forall o e, ProjectUpdateOptions_valid o = Some e <->
     e = ErrInvalidName /\
     exists n, UpdateName o = Some n /\ validStringID (Some n) = false).
Proof.
  split; [|split; [|split; [|split; [|split]]]].
  - intros o H. unfold ProjectCreateOptions_valid. now rewrite H, validString_nil.
  - intros o H. unfold ProjectCreateOptions_valid. now rewrite H, validString_empty.
  - intros o H1 H2. unfold ProjectCreateOptions_valid. now rewrite H1, H2.
  - intros o. unfold ProjectCreateOptions_valid.
    destruct (validString (CreateName o)), (validStringID (CreateName o));
      simpl; split; try discriminate; try tauto; intros [H1 H2]; discriminate.
  - intros o H. unfold ProjectUpdateOptions_valid. now rewrite H.
  - intros o e. unfold ProjectUpdateOptions_valid.
    destruct (UpdateName o) as [n|].
    + destruct (validStringID (Some n)) eqn:E; simpl; split.
      * discriminate.
      * intros (_ & m & Hm & Hv). inversion Hm; subst. congruence.
      * intros H. inversion H. split; [reflexivity|]. now exists n.
      * now intros (-> & _).
    + split; [discriminate|]. intros (_ & m & Hm & _). discriminate.
Qed.

End Client.

Arguments Create validString validStringID QueryEscape {Organization Request}
  NewRequest {Server} serve organization options w.
Arguments Read validStringID QueryEscape {Organization Request}
  NewRequest {Server} serve ProjectID w.
Arguments Update validStringID QueryEscape {Organization Request}
  NewRequest {Server} serve ProjectID options w.
Arguments Delete validStringID QueryEscape {Organization Request}
  NewRequest {Server} serve ProjectID w.

Lemma name_required_on_create_only_witness :
  ProjectCreateOptions_valid nonEmpty noSlash
    {| CreateType := "projects"; CreateName := None |} = Some ErrRequiredName /\
  ProjectCreateOptions_valid nonEmpty noSlash
    {| CreateType := "projects"; CreateName := Some "" |} = Some ErrRequiredName /\
  ProjectCreateOptions_valid nonEmpty noSlash
    {| CreateType := "projects"; CreateName := Some "a/b" |} = Some ErrInvalidName /\
  ProjectUpdateOptions_valid noSlash
    {| UpdateType := "projects"; UpdateName := None |} = None.
Proof.
  pose proof (name_required_on_create_only nonEmpty noSlash eq_refl eq_refl)
    as (H1 & H2 & H3 & _ & H5 & _).
  split; [apply H1; reflexivity|].
  split; [apply H2; reflexivity|].
  split; [apply H3; reflexivity|].
  apply H5; reflexivity.
Defined.

Lemma NewRequest_error_sends_nothing_witness :
  Read noSlash (fun s => s) refuse answer "prj-1" quiet
  = (quiet, (None, Some (ErrClient "no request"))).
Proof.
  exact (proj1 (NewRequest_error_sends_nothing noSlash (fun s => s) _ _ refuse _ answer
                  "prj-1" {| UpdateType := "projects"; UpdateName := None |}
                  quiet (ErrClient "no request") eq_refl) eq_refl).
Defined.

Lemma Read_returns_the_servers_answer_witness :
  sent (fst (Read noSlash (fun s => s) build answer "prj-1" quiet))
  = [("GET", "projects/prj-1", NoBody)].
Proof.
  exact (proj1 (Read_returns_the_servers_answer noSlash (fun s => s) _ _ build _ answer
                  "prj-1" quiet ("GET", "projects/prj-1", NoBody)
                  eq_refl eq_refl)).
Defined.

Lemma Update_without_name_is_sent_witness :
  sent (fst (Update noSlash (fun s => s) build answer "prj-1"
               {| UpdateType := "projects"; UpdateName := None |} quiet))
  = [("PATCH", "projects/prj-1",
      UpdateBody {| UpdateType := "projects"; UpdateName := None |})].
Proof.
  exact (Update_without_name_is_sent noSlash (fun s => s) _ _ build _ answer
           "prj-1" {| UpdateType := "projects"; UpdateName := None |} quiet
           ("PATCH", "projects/prj-1",
            UpdateBody {| UpdateType := "projects"; UpdateName := None |})
           eq_refl eq_refl eq_refl).
Defined.

Lemma Create_returns_the_servers_answer_witness :
  sent (fst (Create nonEmpty noSlash (fun s => s) build answer "hashicorp"
               {| CreateType := "projects"; CreateName := Some "first" |} quiet))
  = [("POST", "organizations/hashicorp/projects",
      CreateBody {| CreateType := "projects"; CreateName := Some "first" |})].
Proof.
  exact (proj1 (Create_returns_the_servers_answer nonEmpty noSlash (fun s => s)
                  _ _ build _ answer "hashicorp"
                  {| CreateType := "projects"; CreateName := Some "first" |} quiet
                  ("POST", "organizations/hashicorp/projects",
                   CreateBody {| CreateType := "projects"; CreateName := Some "first" |})
                  eq_refl eq_refl eq_refl)).
Defined.

Lemma Delete_returns_the_servers_error_witness :
  Delete noSlash (fun s => s) build answer "prj-1" quiet
  = ({| sent := [("DELETE", "projects/prj-1", NoBody)];
        server := 1; printed := [] |}, None).
Proof.
  exact (Delete_returns_the_servers_error noSlash (fun s => s) _ _ build _ answer
           "prj-1" quiet ("DELETE", "projects/prj-1", NoBody) eq_refl eq_refl).
Defined.

Lemma errors_are_accounted_for_witness :
  (noSlash (Some "a/b") = false /\ ErrInvalidProjectID = ErrInvalidProjectID) \/
  build "GET" (String.append "projects/" "a/b") NoBody
  = inl ErrInvalidProjectID \/
  exists req,
    build "GET" (String.append "projects/" "a/b") NoBody = inr req /\
    fst (snd (answer req (server quiet))) = Some ErrInvalidProjectID.
Proof.
  exact (proj1 (proj2 (errors_are_accounted_for nonEmpty noSlash (fun s => s)
                         _ _ build _ answer "hashicorp" "a/b"
                         {| CreateType := "projects"; CreateName := None |}
                         {| UpdateType := "projects"; UpdateName := None |}
                         quiet ErrInvalidProjectID)) eq_refl).
Defined.

Lemma project_comes_from_the_server_witness :
  noSlash (Some "prj-1") = true /\
  exists req,
    build "GET" (String.append "projects/" "prj-1") NoBody = inr req /\
    snd (answer req (server quiet))
    = (None, {| ID := "prj-1"; Name := "first"; Org := None |}) /\
    sent (fst (Read noSlash (fun s => s) build answer "prj-1" quiet))
    = sent quiet ++ [req].
Proof.
  exact (proj1 (proj2 (project_comes_from_the_server nonEmpty noSlash
                         (fun s => s) _ _ build _ answer "hashicorp" "prj-1"
                         {| CreateType := "projects"; CreateName := None |}
                         {| UpdateType := "projects"; UpdateName := None |}
                         quiet
                         {| ID := "prj-1"; Name := "first"; Org := None |}))
           eq_refl).
Defined.

Lemma no_request_no_change_witness :
  fst (Delete noSlash (fun s => s) build answer "a/b" quiet) = quiet.
Proof.
  exact (proj2 (proj2 (proj2 (no_request_no_change nonEmpty noSlash
                                (fun s => s) _ _ build _ answer
                                "hashicorp" "a/b"
                                {| CreateType := "projects"; CreateName := None |}
                                {| UpdateType := "projects"; UpdateName := None |}
                                quiet))) eq_refl).
Defined.

Lemma create_valid_is_update_valid_witness :
  ProjectUpdateOptions_valid noSlash
    {| UpdateType := "projects"; UpdateName := Some "first" |} = None.
Proof.
  exact (create_valid_is_update_valid nonEmpty noSlash
           {| CreateType := "projects"; CreateName := Some "first" |}
           "projects" eq_refl).
Defined.

End Projects.

Module LogReaderFacts.

Import LogReader.

(** Case analysis of one fetch cycle: the fetch fails; payload is handed
    over; nothing is handed over and the oracle fails, says done, says not
    done, or is not consulted. *)
Ltac read_cases R s :=
  unfold read;
  destruct (fetch R (S (logReads s))) as [?msg|?c] eqn:?Ef;
  [|destruct (process (state s) c) as [?f ?p] eqn:?Ep;
    destruct p as [|?b ?p];
    [destruct (oracle_due f (reads s)) eqn:?Eo;
     [destruct (done R (S (logReads s)) (S (doneReads s))) as [?msg|[|]] eqn:?Ed|]|]];
  cbn [fst snd offset state reads logReads doneReads verdicts fetched delivered].

(** ** The tests, replayed *)

Lemma test_withMarkersSingle :
  observed (ReadAll 8 64 withMarkersSingle init []) = Some (expected, None, 3, 1).
Proof. vm_compute. reflexivity. Qed.

Lemma test_withMarkersDouble :
  observed (ReadAll 8 64 withMarkersDouble init []) = Some (expected, None, 4, 1).
Proof. vm_compute. reflexivity. Qed.

Lemma test_withMarkersMulti :
  observed (ReadAll 8 64 withMarkersMulti init []) = Some (expected, None, 31, 3).
Proof. vm_compute. reflexivity. Qed.

Lemma test_withoutMarkers :
  observed (ReadAll 8 64 withoutMarkers init []) = Some (expected, None, 32, 25).
Proof. vm_compute. reflexivity. Qed.

Lemma test_withoutEndOfTextMarker :
  observed (ReadAll 8 64 withoutEndOfTextMarker init [])
  = Some (expected, None, 42, 3).
Proof. vm_compute. reflexivity. Qed.

(** ** Scanning *)

Lemma scan_none (m : byte) (l : list byte) : scan m l = None <-> ~ In m l.
Proof.
  induction l as [|b t IH]; simpl.
  - split; [intros _ []|reflexivity].
  - destruct (Byte.eqb b m) eqn:E.
    + apply byte_dec_bl in E. subst b.
      split; [discriminate|intros H; exfalso; apply H; now left].
    + apply eqb_false in E.
      destruct (scan m t) as [[pre post]|].
      * split; [discriminate|].
        intros H. exfalso. apply H. right.
        destruct (in_dec byte_eq_dec m t) as [i|n]; [exact i|].
        apply IH in n. discriminate.
      * split; [|reflexivity].
        intros _ [H|H]; [now apply E|]. revert H. now apply IH.
Qed.







(** ** The framer over a sequence of chunks *)


Lemma frame_app (f : framer) (cs ds : list chunk) :
  frame f (cs ++ ds) =
  (fst (frame (fst (frame f cs)) ds),
   snd (frame f cs) ++ snd (frame (fst (frame f cs)) ds)).
Proof.
  revert f. induction cs as [|c t IH]; intros f; simpl.
  - now destruct (frame f ds).
  - destruct (process f c) as [f1 p]. rewrite IH.
    destruct (frame f1 t) as [f2 q]. simpl. now rewrite app_assoc.
Qed.



Lemma frame_SEEKING (cs : list chunk) :
  ~ In STX (concat cs) -> frame SEEKING_START cs = (SEEKING_START, concat cs).
Proof.
  induction cs as [|c t IH]; simpl; intros H; [reflexivity|].
  assert (Hc : ~ In STX c) by (intros Hi; apply H; apply in_or_app; now left).
  apply scan_none in Hc. rewrite Hc, IH; [reflexivity|].
  intros Hi. apply H. apply in_or_app. now right.
Qed.


(** ** Session invariants *)

(** What the consumer has been handed is what the framer made of the chunks
    received, and the session's framer state is the framer's. *)
Lemma read_framed (R : Remote) (s : LogSession) :
  frame SEEKING_START (fetched s) = (state s, delivered s) ->
  frame SEEKING_START (fetched (fst (read R s)))
  = (state (fst (read R s)), delivered (fst (read R s))).
Proof.
  intros H. read_cases R s; try exact H;
    rewrite frame_app, H; cbn [fst snd frame]; rewrite Ep; cbn [fst snd];
    now rewrite ?app_nil_r.
Qed.

Lemma reachable_framed (R : Remote) (s : LogSession) :
  reachable R s -> frame SEEKING_START (fetched s) = (state s, delivered s).
Proof.
  induction 1 as [|s _ IH|s n _ IH]; [reflexivity| |exact IH].
  now apply read_framed.
Qed.

(** A cycle hands the consumer exactly what it appends to [delivered]. *)
Lemma read_delivered (R : Remote) (s : LogSession) :
  delivered (fst (read R s)) = delivered s ++ fst (snd (read R s)).
Proof. read_cases R s; now rewrite ?app_nil_r. Qed.

(** The four results of a cycle. *)
Lemma read_result (R : Remote) (s : LogSession) :
  let r := snd (read R s) in
  (fst r <> [] /\ snd r = None) \/
  (fst r = [] /\ snd r = Some EOF) \/
  (fst r = [] /\ snd r = Some ErrNoProgress) \/
  (fst r = [] /\ exists msg, snd r = Some (Failure msg) /\
     (fetch R (logReads (fst (read R s))) = inl msg \/
      done R (logReads (fst (read R s))) (doneReads (fst (read R s))) = inl msg)).
Proof.
  read_cases R s.
  - right; right; right. split; [reflexivity|]. exists msg. split; [reflexivity|now left].
  - right; right; right. split; [reflexivity|]. exists msg.
    split; [reflexivity|now right].
  - right; left. now split.
  - right; right; left. now split.
  - right; right; left. now split.
  - left. split; [discriminate|reflexivity].
Qed.




(** A read call hands the consumer exactly what it appends to [delivered]. *)
Lemma poll_delivered (fuel : nat) (R : Remote) :
  forall s s' bs e, poll fuel R s = Some (s', (bs, e)) ->
    delivered s' = delivered s ++ bs.
Proof.
  induction fuel as [|k IH]; intros s s' bs e H; simpl in H; [discriminate|].
  pose proof (read_delivered R s) as Hd.
  pose proof (read_result R s) as Hr.
  destruct (read R s) as [s1 [bs1 e1]]. simpl in *.
  destruct e1 as [[| |msg]|]; try (inversion H; subst; assumption).
  apply IH in H. simpl in H. rewrite H, Hd.
  destruct Hr as [[_ Hr]|[[_ Hr]|[[-> _]|[-> _]]]]; try discriminate;
    now rewrite app_nil_r.
Qed.

Lemma Read_delivered (fuel : nat) (R : Remote) (s s' : LogSession) bs e :
  Read fuel R s = Some (s', (bs, e)) -> delivered s' = delivered s ++ bs.
Proof.
  unfold Read. intros H.
  pose proof (read_delivered R s) as Hd.
  pose proof (read_result R s) as Hr.
  destruct (read R s) as [s1 [bs1 e1]]. simpl in *.
  destruct e1 as [[| |msg]|]; try (inversion H; subst; assumption).
  apply poll_delivered in H. simpl in H. rewrite H, Hd.
  destruct Hr as [[_ Hr]|[[_ Hr]|[[-> _]|[-> _]]]]; try discriminate;
    now rewrite app_nil_r.
Qed.

(** [io.ReadAll] returns the bytes the session delivered while it ran. *)
Lemma ReadAll_delivered (calls fuel : nat) (R : Remote) :
  forall s acc s' out e, ReadAll calls fuel R s acc = Some (s', (out, e)) ->
    exists d, out = acc ++ d /\ delivered s' = delivered s ++ d.
Proof.
  induction calls as [|k IH]; intros s acc s' out e H; simpl in H; [discriminate|].
  destruct (Read fuel R s) as [[s1 [bs e1]]|] eqn:E; [|discriminate].
  apply Read_delivered in E.
  destruct e1 as [[| |msg]|]; try (inversion H; subst; now exists bs).
  apply IH in H. destruct H as (d & -> & Hd).
  exists (bs ++ d). now rewrite Hd, E, !app_assoc.
Qed.



(** ** The consumer-facing read *)


(** The three outcomes all occur. *)
Lemma Read_outcomes_occur :
  (exists s bs, Read 4 withMarkersSingle init = Some (s, (bs, None)) /\ bs <> []) /\
  (exists s, Read 4 silentDone (set_reads init 2) = Some (s, ([], Some EOF))) /\
  (exists s, Read 4 down init = Some (s, ([], Some (Failure "503")))).
Proof.
  split; [|split].
  - eexists. eexists. split; [vm_compute; reflexivity|discriminate].
  - eexists. vm_compute. reflexivity.
  - eexists. vm_compute. reflexivity.
Qed.


(** ** After the END marker *)




(** After END, with a silent server and an oracle that keeps answering
    false, a read call never returns. *)
Lemma poll_after_END_blocks (R : Remote) :
  (forall n d, done R n d = inr false) ->
  forall fuel s, state s = DONE ->
    (forall n, logReads s < n -> fetch R n = inr []) ->
    poll fuel R s = None.
Proof.
  intros Ho. induction fuel as [|k IH]; intros s Hd Hf; [reflexivity|].
  cbn [poll]. unfold read.
  rewrite (Hf (S (logReads s))) by lia. rewrite Hd. cbn [process oracle_due].
  rewrite Ho. cbn [snd]. apply IH; [reflexivity|].
  cbn [set_reads logReads]. intros n Hn. apply Hf. lia.
Qed.




(** The end marker alone does not end the stream: after the same frame,
    with a silent server and an oracle that keeps answering false,
    [io.ReadAll] never returns. *)
Lemma END_alone_does_not_end_the_stream (R : Remote) (calls fuel : nat) :
  fetch R 1 = inr (STX :: text "abc" ++ [ETX]) ->
  (forall n, 1 < n -> fetch R n = inr []) ->
  (forall n d, done R n d = inr false) ->
  ReadAll calls fuel R init [] = None.
Proof.
  intros H1 Hn Ho. destruct calls as [|calls]; [reflexivity|].
  cbn [ReadAll]. unfold Read at 1. unfold read at 1.
  cbn [init logReads state reads doneReads]. rewrite H1. cbn.
  destruct calls as [|calls]; [reflexivity|].
  cbn [ReadAll]. unfold Read at 1. unfold read at 1.
  cbn [logReads state reads doneReads]. rewrite (Hn 2) by lia. cbn.
  rewrite Ho. cbn.
  rewrite (poll_after_END_blocks R Ho); [reflexivity|reflexivity|].
  cbn. intros n Hlt. apply Hn. lia.
Qed.

(** The offset is the number of bytes fetched so far. *)
Lemma reachable_offset (R : Remote) (s : LogSession) :
  reachable R s -> offset s = length (concat (fetched s)).
Proof.
  induction 1 as [|s _ IH|s n _ IH]; [reflexivity| |exact IH].
  read_cases R s; trivial;
    rewrite concat_app, length_app, IH; simpl; now rewrite app_nil_r.
Qed.

(** ** Where the stream ends *)

(** A fetch cycle ends the stream exactly when it consulted the oracle and
    the oracle answered true. *)
Lemma read_EOF_iff (R : Remote) (s : LogSession) :
  snd (snd (read R s)) = Some EOF <->
  verdicts (fst (read R s)) = verdicts s ++ [true].
Proof.
  assert (Hn : forall l : list bool, l <> l ++ [true]).
  { intros l H. apply (f_equal (@length bool)) in H.
    rewrite length_app in H. simpl in H. lia. }
  assert (Hf : forall l : list bool, l ++ [false] <> l ++ [true]).
  { intros l H. apply app_inv_head in H. discriminate. }
  read_cases R s; split; intros H; try discriminate; try reflexivity;
    solve [now apply Hn in H | now apply Hf in H].
Qed.

(** A cycle that does not end the stream adds at most a [false] verdict. *)
Lemma read_verdicts_false (R : Remote) (s : LogSession) :
  Forall (eq false) (verdicts s) ->
  snd (snd (read R s)) <> Some EOF ->
  Forall (eq false) (verdicts (fst (read R s))).
Proof.
  intros H. read_cases R s; intros Hn; trivial.
  - now elim Hn.
  - apply Forall_app. split; [exact H|now constructor].
Qed.

Lemma poll_verdicts (fuel : nat) (R : Remote) :
  forall s s' r, Forall (eq false) (verdicts s) ->
    poll fuel R s = Some (s', r) ->
    if match snd r with Some EOF => true | _ => false end
    then exists vs, verdicts s' = vs ++ [true] /\ Forall (eq false) vs
    else Forall (eq false) (verdicts s').
Proof.
  induction fuel as [|k IH]; intros s s' r Hv H; simpl in H; [discriminate|].
  pose proof (read_verdicts_false R s Hv) as Hf.
  pose proof (proj1 (read_EOF_iff R s)) as He.
  destruct (read R s) as [s1 [bs e]]. simpl in *.
  destruct e as [[| |msg]|].
  - inversion H; subst. simpl. exists (verdicts s). split; [now apply He|exact Hv].
  - apply (IH (set_reads s1 (S (reads s1))) _ _ (Hf ltac:(discriminate)) H).
  - inversion H; subst. simpl. apply Hf. discriminate.
  - inversion H; subst. simpl. apply Hf. discriminate.
Qed.

Lemma Read_verdicts (fuel : nat) (R : Remote) (s s' : LogSession) r :
  Forall (eq false) (verdicts s) ->
  Read fuel R s = Some (s', r) ->
  if match snd r with Some EOF => true | _ => false end
  then exists vs, verdicts s' = vs ++ [true] /\ Forall (eq false) vs
  else Forall (eq false) (verdicts s').
Proof.
  unfold Read. intros Hv H.
  pose proof (read_verdicts_false R s Hv) as Hf.
  pose proof (proj1 (read_EOF_iff R s)) as He.
  destruct (read R s) as [s1 [bs e]]. simpl in *.
  destruct e as [[| |msg]|].
  - inversion H; subst. simpl. exists (verdicts s). split; [now apply He|exact Hv].
  - apply (poll_verdicts fuel R (set_reads s1 1) _ _ (Hf ltac:(discriminate)) H).
  - inversion H; subst. simpl. apply Hf. discriminate.
  - inversion H; subst. simpl. apply Hf. discriminate.
Qed.

(** When [io.ReadAll] returns at end-of-stream, the oracle's last answer was
    its first [true]. *)
Lemma ReadAll_first_true (calls fuel : nat) (R : Remote) :
  forall s acc s' out, Forall (eq false) (verdicts s) ->
    ReadAll calls fuel R s acc = Some (s', (out, None)) ->
    exists vs, verdicts s' = vs ++ [true] /\ Forall (eq false) vs.
Proof.
  induction calls as [|k IH]; intros s acc s' out Hv H; simpl in H; [discriminate|].
  destruct (Read fuel R s) as [[s1 [bs e]]|] eqn:E; [|discriminate].
  pose proof (Read_verdicts fuel R s s1 _ Hv E) as Hr. simpl in Hr.
  destruct e as [[| |msg]|]; try discriminate.
  - inversion H; subst. exact Hr.
  - exact (IH _ _ _ _ Hr H).
Qed.

(** ** Splitting a stream at its first marker *)






(** A cycle before START whose chunk has no START: the chunk is handed over
    whole, and the stream ends exactly when the chunk is empty, the wait
    counter exceeds one and the oracle answers true. *)
Lemma read_SEEKING (R : Remote) (s : LogSession) (c : chunk) :
  state s = SEEKING_START ->
  fetch R (S (logReads s)) = inr c -> ~ In STX c ->
  state (fst (read R s)) = SEEKING_START /\
  delivered (fst (read R s)) = delivered s ++ c /\
  (snd (snd (read R s)) = Some EOF <->
   c = [] /\ 1 < reads s /\
   done R (S (logReads s)) (S (doneReads s)) = inr true).
Proof.
  intros Hs Hf Hc. apply scan_none in Hc.
  unfold read. rewrite Hf, Hs. cbn [process]. rewrite Hc.
  destruct c as [|b c]; cbn [oracle_due].
  - destruct (1 <? reads s) eqn:E.
    + apply Nat.ltb_lt in E.
      destruct (done R (S (logReads s)) (S (doneReads s))) as [msg|[|]];
        cbn; (split; [reflexivity|split; [reflexivity|]]);
        split; try discriminate; try tauto;
        intros (_ & _ & H); discriminate.
    + apply Nat.ltb_ge in E. cbn. split; [reflexivity|split; [reflexivity|]].
      split; [discriminate|]. intros (_ & H & _). lia.
  - cbn. split; [reflexivity|split; [reflexivity|]].
    split; [discriminate|]. intros (H & _). discriminate.
Qed.


(** ** Streams with one frame *)




(** ** Streams without markers, and without the END marker *)

(** When no START and no END byte has been fetched, every fetched byte has
    been delivered, verbatim and in order.  A further cycle hands its
    marker-free chunk over whole and ends the stream exactly when the oracle
    is asked (empty chunk, wait counter above one) and answers true; and
    when [io.ReadAll] has returned at end-of-stream, it returned all the
    bytes fetched and the oracle's last answer was its first [true]. *)
Lemma passthrough_without_markers (R : Remote) (s : LogSession) :
  reachable R s ->
  ~ In STX (concat (fetched s)) -> ~ In ETX (concat (fetched s)) ->
  delivered s = concat (fetched s) /\
  (forall c, fetch R (S (logReads s)) = inr c -> ~ In STX c -> ~ In ETX c ->
     delivered (fst (read R s)) = delivered s ++ c /\
     (snd (snd (read R s)) = Some EOF <->
      c = [] /\ 1 < reads s /\
      done R (S (logReads s)) (S (doneReads s)) = inr true)) /\
  (forall calls fuel out,
     ReadAll calls fuel R init [] = Some (s, (out, None)) ->
     out = concat (fetched s) /\
     exists vs, verdicts s = vs ++ [true] /\ Forall (eq false) vs).
Proof.
  intros Hr Hs _.
  apply reachable_framed in Hr. rewrite (frame_SEEKING _ Hs) in Hr.
  assert (Hst : state s = SEEKING_START) by congruence.
  assert (Hd : delivered s = concat (fetched s)) by congruence.
  split; [exact Hd|split].
  - intros c Hf Hc _. now destruct (read_SEEKING R s c Hst Hf Hc) as (_ & H1 & H2).
  - intros calls fuel out H. split.
    + destruct (ReadAll_delivered calls fuel R _ _ _ _ _ H) as (d & -> & Hd').
      simpl in *. congruence.
    + apply (ReadAll_first_true calls fuel R init [] s out); [constructor|exact H].
Qed.

Section Markerless.

(** A stream without markers whose job comes to an end: no fetch fails and
    no chunk holds a marker byte, the oracle never fails, and from the
    [K]-th fetch on the server has nothing more to send and the oracle says
    done. *)
Variable R : Remote.
Variable K : nat.
Hypothesis markerless :
  forall n, exists c, fetch R n = inr c /\ ~ In STX c /\ ~ In ETX c.
Hypothesis answers : forall n d, exists b, done R n d = inr b.
Hypothesis settled :
  forall n d, K <= n -> fetch R n = inr [] /\ done R n d = inr true.








End Markerless.




(** ** The framing markers are not payload *)




(** ** When the oracle is consulted *)




End LogReaderFacts.
